(** * Clock.c: the native half of [com.gurock.smartinspect.Clock]

    The file [src/native/Clock.c] holds two JNI entry points,
    [Java_com_gurock_smartinspect_Clock_getCounter] and
    [Java_com_gurock_smartinspect_Clock_getFrequency].  Each one declares a
    [jlong] automatic variable, hands its address to a Win32 query
    ([QueryPerformanceCounter], [QueryPerformanceFrequency]), overwrites the
    variable with [0] when the query reports failure, and returns it.

    The embedding below is state passing.  The two Win32 queries are not
    part of the repository, so they are a parameter (the class [Platform]);
    everything that is proved holds for every platform, and a few concrete
    platforms are defined to run the code on. *)

From stdpp Require Import base option list gmap.
From Stdlib Require Import ZArith Lia.

Local Open Scope Z_scope.

(** ** 64-bit two's-complement integers

    An 8-byte object in memory is modelled by an integer that stands for its
    bit pattern, taken modulo [2^64]; [jlong] and [LONGLONG] read such an
    object as a signed number. *)
Module Int64.

Definition modulus : Z := 2 ^ 64.
Definition half_modulus : Z := 2 ^ 63.
Definition min_signed : Z := - 2 ^ 63.
Definition max_signed : Z := 2 ^ 63 - 1.

(** The bit pattern of an object, as a number in [0, 2^64). *)
Definition unsigned (bits : Z) : Z := bits mod modulus.

(** The value a signed 64-bit read of the object gives. *)
Definition signed (bits : Z) : Z :=
  let u := unsigned bits in
  if u <? half_modulus then u else u - modulus.

Definition in_range (v : Z) : Prop := min_signed <= v <= max_signed.

End Int64.

(** ** The declarations of [jni.h] and [windows.h] the file uses *)

(** [jlong]: a signed 64-bit integer, kept as the number it denotes. *)
Definition jlong : Type := Z.

(** [JNIEnv *] and [jclass] are handles; neither is ever dereferenced here. *)
Definition JNIEnv : Type := Z.
Definition jclass : Type := Z.
Definition jthrowable : Type := Z.

(** [BOOL] is C's [int]; [FALSE] is [0] and every other value is true. *)
Definition BOOL : Type := Z.

(** C's [!e] on an integer: true exactly when [e] is [0]. *)
Definition lnot (e : BOOL) : bool := e =? 0.

(** What one Win32 query hands back: its [BOOL] result, and the content of
    the [LARGE_INTEGER] its argument points to once the call is over. *)
Record QueryResult : Type := mkQueryResult {
  ok : BOOL;
  QuadPart : Z
}.

(** The operating system side.  [World] is whatever the timer facility
    depends on.  A query receives the present content of the object it is
    given the address of (for [Clock.c] an uninitialised automatic variable,
    so an indeterminate bit pattern) and the world, and yields its result
    and the world afterwards.  A query has no access to anything else. *)
Class Platform : Type := {
  World : Type;
  QueryPerformanceCounter : Z -> World -> QueryResult * World;
  QueryPerformanceFrequency : Z -> World -> QueryResult * World
}.

(** ** Program state and the state monad *)

(** The state a native method runs in: the operating system's world, the
    exception pending in the calling Java thread (how a native method
    signals an error to its caller), and the memory of the process outside
    the method's own frame (address to byte). *)
Record State `{P : Platform} : Type := mkState {
  os : World;
  pending : option jthrowable;
  memory : gmap Z Z
}.

Definition M `{P : Platform} (A : Type) : Type := State -> A * State.

Definition ret_M `{P : Platform} {A : Type} (a : A) : M A := fun s => (a, s).

Definition bind_M `{P : Platform} {A B : Type} (m : M A) (k : A -> M B) : M B :=
  fun s => let (a, s') := m s in k a s'.

Notation "'do' x <- m ; k" := (bind_M m (fun x => k))
  (at level 10, x name, m at level 100, k at level 200).

(** A system call: runs on the world component and leaves the rest alone. *)
Definition syscall `{P : Platform} {A : Type} (q : World -> A * World) : M A :=
  fun s =>
    let (a, w) := q (os s) in
    (a, {| os := w; pending := pending s; memory := memory s |}).

(** ** The two functions of [Clock.c]

    [uninit] is the indeterminate content of the automatic variable at the
    point where its address is passed to the query. *)

Definition Java_com_gurock_smartinspect_Clock_getCounter `{P : Platform}
    (env : JNIEnv) (c : jclass) (uninit : Z) : M jlong :=
  do r <- syscall (QueryPerformanceCounter uninit);
  let count := QuadPart r in
  let count := if lnot (ok r) then 0 (* Indicates failure *) else count in
  ret_M (Int64.signed count).

Definition Java_com_gurock_smartinspect_Clock_getFrequency `{P : Platform}
    (env : JNIEnv) (c : jclass) (uninit : Z) : M jlong :=
  do r <- syscall (QueryPerformanceFrequency uninit);
  let frequency := QuadPart r in
  let frequency := if lnot (ok r) then 0 (* Indicates failure *) else frequency in
  ret_M (Int64.signed frequency).

Abbreviation getCounter := Java_com_gurock_smartinspect_Clock_getCounter.
Abbreviation getFrequency := Java_com_gurock_smartinspect_Clock_getFrequency.

(** The query a function issues, seen from the state it is called in:
    used to talk about "the outcome of the underlying call". *)
Definition counter_query `{P : Platform} (uninit : Z) (s : State) : QueryResult :=
  fst (QueryPerformanceCounter uninit (os s)).

Definition frequency_query `{P : Platform} (uninit : Z) (s : State) : QueryResult :=
  fst (QueryPerformanceFrequency uninit (os s)).

(** A query succeeded when its [BOOL] is not [FALSE]. *)
Definition succeeded (r : QueryResult) : Prop := ok r <> 0.
Definition failed (r : QueryResult) : Prop := ok r = 0.

(** ** Consecutive calls on one thread *)

(** [consecutive call uninits] makes one call per element of [uninits]
    (the indeterminate content of the local at each call), one after the
    other, threading the state, and collects the values returned. *)
Fixpoint consecutive `{P : Platform} {A : Type} (call : Z -> M A)
    (uninits : list Z) : M (list A) :=
  match uninits with
  | [] => ret_M []
  | u :: us =>
      do v <- call u;
      do vs <- consecutive call us;
      ret_M (v :: vs)
  end.

(** What the operating system answers to the same number of queries issued
    one after the other from world [w]. *)
Fixpoint query_trace `{P : Platform} (q : Z -> World -> QueryResult * World)
    (uninits : list Z) (w : World) : list QueryResult :=
  match uninits with
  | [] => []
  | u :: us => let (r, w') := q u w in r :: query_trace q us w'
  end.

(** The performance counter of a platform is monotonic when, along every
    run of queries, a successful reading is never below an earlier
    successful one. *)
Definition monotonic_counter `{P : Platform} : Prop :=
  forall (w : World) (uninits : list Z) (i j : nat) (ri rj : QueryResult),
    (i < j)%nat ->
    query_trace QueryPerformanceCounter uninits w !! i = Some ri ->
    query_trace QueryPerformanceCounter uninits w !! j = Some rj ->
    succeeded ri -> succeeded rj ->
    Int64.signed (QuadPart ri) <= Int64.signed (QuadPart rj).

(** Worlds the operating system can be in after some queries from [w0]. *)
Inductive reachable `{P : Platform} (w0 : World) : World -> Prop :=
| reach_here : reachable w0 w0
| reach_counter w u :
    reachable w0 w -> reachable w0 (snd (QueryPerformanceCounter u w))
| reach_frequency w u :
    reachable w0 w -> reachable w0 (snd (QueryPerformanceFrequency u w)).

(** ** Concrete platforms to run the code on *)

(** A working timer at 10 MHz: the world is the time in ticks, a counter
    query stores it (a [LONGLONG], so it stays at the largest one once
    there) and takes three ticks, a frequency query is a pure read. *)
Definition reading (w : Z) : Z := Z.max 0 (Z.min w Int64.max_signed).

Definition steady_clock : Platform := {|
  World := Z;
  QueryPerformanceCounter := fun _ w => (mkQueryResult 1 (reading w), w + 3);
  QueryPerformanceFrequency := fun _ w => (mkQueryResult 1 10000000, w)
|}.

(** No timer: both queries return [FALSE]; the counter query still
    scribbles on its argument, the frequency query leaves it alone. *)
Definition broken_clock : Platform := {|
  World := unit;
  QueryPerformanceCounter := fun _ w => (mkQueryResult 0 123456789, w);
  QueryPerformanceFrequency := fun u w => (mkQueryResult 0 u, w)
|}.

(** A timer that is there or not: the world says whether the facility
    works; when it does, the reading is zero. *)
Definition flaky_clock : Platform := {|
  World := bool;
  QueryPerformanceCounter := fun u w =>
    (if w then mkQueryResult 1 0 else mkQueryResult 0 u, w);
  QueryPerformanceFrequency := fun u w =>
    (if w then mkQueryResult 1 0 else mkQueryResult 0 u, w)
|}.

(** A timer that works every other time: a counter query succeeds when the
    time is even and fails, leaving its argument alone, when it is odd. *)
Definition stuttering_clock : Platform := {|
  World := Z;
  QueryPerformanceCounter := fun u w =>
    (if Z.even w then mkQueryResult 1 (reading w) else mkQueryResult 0 u, w + 1);
  QueryPerformanceFrequency := fun _ w => (mkQueryResult 1 10000000, w)
|}.

(** A counter that runs backwards, to show that monotonicity is a property
    of the platform and not of the wrapper. *)
Definition falling_clock : Platform := {|
  World := Z;
  QueryPerformanceCounter := fun _ w => (mkQueryResult 1 w, w - 1);
  QueryPerformanceFrequency := fun _ w => (mkQueryResult 1 10000000, w)
|}.

Definition start_state (P : Platform) (w : @World P) : @State P :=
  {| os := w; pending := None; memory := {[ 4096 := 7 ]} |}.

(** ** Both entry points under one name *)

Inductive native : Type := GetCounter | GetFrequency.

Definition query_of `{P : Platform} (f : native)
    : Z -> World -> QueryResult * World :=
  match f with
  | GetCounter => QueryPerformanceCounter
  | GetFrequency => QueryPerformanceFrequency
  end.

Definition invoke `{P : Platform} (f : native)
    : JNIEnv -> jclass -> Z -> M jlong :=
  match f with
  | GetCounter => Java_com_gurock_smartinspect_Clock_getCounter
  | GetFrequency => Java_com_gurock_smartinspect_Clock_getFrequency
  end.

(** How the Java side sees a native call complete: the JVM looks at the
    pending exception first, and only takes the returned value when there
    is none. *)
Inductive completion : Type :=
| Normal (v : jlong)
| Throws (e : jthrowable).

Definition complete `{P : Platform} (r : jlong * State) : completion :=
  match pending (snd r) with
  | Some e => Throws e
  | None => Normal (fst r)
  end.

(** ** The same code, one statement at a time, in several threads

    Every thread that is inside one of the two functions has a frame of its
    own holding the automatic variable.  The program points are: the
    variable is declared; the query has returned; the branch of the [if] is
    taken; the [return] is reached; the call is over. *)
Inductive frame : Type :=
| Entered (local : Z)
| Queried (t : BOOL) (local : Z)
| Failing (local : Z)
| Leaving (local : Z)
| Returned (v : jlong).

Definition step_frame `{P : Platform} (f : native) (fr : frame) : M frame :=
  match fr with
  | Entered local =>
      do r <- syscall (query_of f local);
      ret_M (Queried (ok r) (QuadPart r))
  | Queried t local =>
      ret_M (if lnot t then Failing local else Leaving local)
  | Failing _ => ret_M (Leaving 0)
  | Leaving local => ret_M (Returned (Int64.signed local))
  | Returned v => ret_M (Returned v)
  end.

(** Statements left to execute, at most. *)
Definition remaining (fr : frame) : nat :=
  match fr with
  | Entered _ => 4
  | Queried _ _ => 3
  | Failing _ => 2
  | Leaving _ => 1
  | Returned _ => 0
  end.

Record thread : Type := mkThread {
  entry : native;
  t_env : JNIEnv;
  t_class : jclass;
  at_frame : frame
}.

Record Machine `{P : Platform} : Type := mkMachine {
  shared : State;
  pool : list thread
}.

(** Thread [i] executes its next statement; a thread that does not exist
    does nothing. *)
Definition step `{P : Platform} (i : nat) (m : Machine) : Machine :=
  match pool m !! i with
  | Some t =>
      let (fr, s) := step_frame (entry t) (at_frame t) (shared m) in
      {| shared := s;
         pool := <[ i := mkThread (entry t) (t_env t) (t_class t) fr ]> (pool m) |}
  | None => m
  end.

(** A schedule names the thread that moves at each instant. *)
Definition run `{P : Platform} (schedule : list nat) (m : Machine) : Machine :=
  foldl (fun m i => step i m) m schedule.

(** All threads at the entry of their function. *)
Definition spawn (calls : list (native * JNIEnv * jclass * Z)) : list thread :=
  map (fun '(f, env, c, u) => mkThread f env c (Entered u)) calls.

(** *** What the frames of a run of the machine have to satisfy

    [frame_ok] relates the frame of a thread that called [f env c] with
    indeterminate local [u] to the worlds the operating system has gone
    through since [w0]; [pe] and [mem] are the pending exception and the
    memory the machine started with. *)
Definition frame_ok `{P : Platform} (w0 : World) (pe : option jthrowable)
    (mem : gmap Z Z) (f : native) (env : JNIEnv) (c : jclass) (u : Z)
    (fr : frame) : Prop :=
  match fr with
  | Entered local => local = u
  | Queried t local =>
      exists w, reachable w0 w /\
        fst (query_of f u w) = mkQueryResult t local
  | Failing _ =>
      exists w, reachable w0 w /\ failed (fst (query_of f u w))
  | Leaving local =>
      exists w, reachable w0 w /\
        Int64.signed local
          = fst (invoke f env c u {| os := w; pending := pe; memory := mem |})
  | Returned v =>
      exists w, reachable w0 w /\
        v = fst (invoke f env c u {| os := w; pending := pe; memory := mem |})
  end.

Definition consistent `{P : Platform}
    (calls : list (native * JNIEnv * jclass * Z)) (s0 : State)
    (m : Machine) : Prop :=
  reachable (os s0) (os (shared m)) /\
  pending (shared m) = pending s0 /\
  memory (shared m) = memory s0 /\
  forall (i : nat) (t : thread),
    pool m !! i = Some t ->
    exists u : Z,
      calls !! i = Some (entry t, t_env t, t_class t, u) /\
      frame_ok (os s0) (pending s0) (memory s0)
        (entry t) (t_env t) (t_class t) u (at_frame t).

(** Statements thread [i] still has to execute, at most ([0] for a thread
    that does not exist). *)
Definition remaining_at `{P : Platform} (i : nat) (m : Machine) : nat :=
  match pool m !! i with
  | Some t => remaining (at_frame t)
  | None => 0
  end.

(** How often a schedule lets thread [i] move. *)
Definition turns (i : nat) (schedule : list nat) : nat :=
  length (filter (fun k => k = i) schedule).

(** ** Runs of calls against runs of queries *)

(** The world the operating system is in after the queries of
    [query_trace]. *)
Fixpoint query_world `{P : Platform} (q : Z -> World -> QueryResult * World)
    (uninits : list Z) (w : World) : World :=
  match uninits with
  | [] => w
  | u :: us => query_world q us (snd (q u w))
  end.

(** ** Calls in several threads against calls one after the other *)

(** The value a frame is bound to return: none before the query, and after
    it the value the statements that are left will compute. *)
Definition outcome (fr : frame) : option jlong :=
  match fr with
  | Entered _ => None
  | Queried t local => Some (Int64.signed (if lnot t then 0 else local))
  | Failing _ => Some 0
  | Leaving local => Some (Int64.signed local)
  | Returned v => Some v
  end.

(** The threads of a schedule in the order of their first turn, leaving out
    those in [seen]. *)
Fixpoint first_turns (seen : list nat) (schedule : list nat) : list nat :=
  match schedule with
  | [] => []
  | i :: rest =>
      if decide (i ∈ seen) then first_turns seen rest
      else i :: first_turns (i :: seen) rest
  end.

(** The calls numbered by [order], made one after the other on one thread;
    each value is paired with the number of its call, and a number that
    names no call is passed over. *)
Fixpoint sequential `{P : Platform}
    (calls : list (native * JNIEnv * jclass * Z)) (order : list nat)
    : M (list (nat * jlong)) :=
  match order with
  | [] => ret_M []
  | i :: rest =>
      match calls !! i with
      | Some (f, env, c, u) =>
          do v <- invoke f env c u;
          do vs <- sequential calls rest;
          ret_M ((i, v) :: vs)
      | None => sequential calls rest
      end
  end.

(** The threads in [seen] have made their query, the others have not. *)
Definition queried_exactly `{P : Platform}
    (calls : list (native * JNIEnv * jclass * Z)) (seen : list nat)
    (m : Machine) : Prop :=
  length (pool m) = length calls /\
  forall (i : nat) (t : thread),
    pool m !! i = Some t ->
    exists u : Z,
      calls !! i = Some (entry t, t_env t, t_class t, u) /\
      if decide (i ∈ seen) then is_Some (outcome (at_frame t))
      else at_frame t = Entered u.

(** * Properties *)

(** ** Facts about 64-bit reads *)

Lemma Int64_unsigned_range (bits : Z) :
  0 <= Int64.unsigned bits < Int64.modulus.
Proof. unfold Int64.unsigned, Int64.modulus. apply Z.mod_pos_bound. lia. Qed.

Lemma Int64_signed_range (bits : Z) : Int64.in_range (Int64.signed bits).
Proof.
  pose proof (Int64_unsigned_range bits) as Hu.
  unfold Int64.in_range, Int64.signed, Int64.min_signed, Int64.max_signed.
  unfold Int64.half_modulus, Int64.modulus in *.
  destruct (Z.ltb_spec (Int64.unsigned bits) (2 ^ 63)); lia.
Qed.

Lemma Int64_unsigned_signed (bits : Z) :
  Int64.unsigned (Int64.signed bits) = Int64.unsigned bits.
Proof.
  unfold Int64.signed.
  destruct (Int64.unsigned bits <? Int64.half_modulus).
  - unfold Int64.unsigned. apply Z.mod_mod. unfold Int64.modulus. lia.
  - unfold Int64.unsigned.
    replace (bits mod Int64.modulus - Int64.modulus)
      with (bits mod Int64.modulus + (-1) * Int64.modulus) by lia.
    rewrite Z.mod_add by (unfold Int64.modulus; lia).
    apply Z.mod_mod. unfold Int64.modulus. lia.
Qed.

Lemma Int64_signed_of_range (v : Z) : Int64.in_range v -> Int64.signed v = v.
Proof.
  unfold Int64.in_range, Int64.min_signed, Int64.max_signed.
  unfold Int64.signed, Int64.unsigned, Int64.half_modulus, Int64.modulus.
  intros Hv. destruct (Z_lt_le_dec v 0) as [Hneg | Hpos].
  - replace (v mod 2 ^ 64) with (v + 2 ^ 64).
    + destruct (Z.ltb_spec (v + 2 ^ 64) (2 ^ 63)); lia.
    + apply Z.mod_unique with (q := -1); lia.
  - rewrite Z.mod_small by lia.
    destruct (Z.ltb_spec v (2 ^ 63)); lia.
Qed.

Lemma Int64_testbit_signed (bits n : Z) :
  0 <= n < 64 -> Z.testbit (Int64.signed bits) n = Z.testbit bits n.
Proof.
  intros Hn.
  rewrite <- (Z.mod_pow2_bits_low (Int64.signed bits) 64 n) by lia.
  rewrite <- (Z.mod_pow2_bits_low bits 64 n) by lia.
  pose proof (Int64_unsigned_signed bits) as Hs.
  unfold Int64.unsigned, Int64.modulus in Hs. now rewrite Hs.
Qed.

Lemma lnot_true (e : BOOL) : lnot e = true <-> e = 0.
Proof. unfold lnot. apply Z.eqb_eq. Qed.

Lemma lnot_false (e : BOOL) : lnot e = false <-> e <> 0.
Proof. unfold lnot. apply Z.eqb_neq. Qed.

(** ** What a call computes *)

Section Calls.
Context `{P : Platform}.

(** The value and the state a call ends with, in terms of the query. *)
Lemma invoke_unfold (f : native) (env : JNIEnv) (c : jclass) (u : Z) (s : State) :
  invoke f env c u s =
    (Int64.signed (if lnot (ok (fst (query_of f u (os s)))) then 0
                   else QuadPart (fst (query_of f u (os s)))),
     {| os := snd (query_of f u (os s));
        pending := pending s; memory := memory s |}).
Proof.
  destruct f; cbn [invoke query_of];
    unfold Java_com_gurock_smartinspect_Clock_getCounter,
      Java_com_gurock_smartinspect_Clock_getFrequency, bind_M, syscall, ret_M;
    match goal with |- context [?q u (os s)] => destruct (q u (os s)) end;
    reflexivity.
Qed.

Lemma invoke_success (f : native) env c u s :
  succeeded (fst (query_of f u (os s))) ->
  fst (invoke f env c u s) = Int64.signed (QuadPart (fst (query_of f u (os s)))).
Proof.
  intros Hok. rewrite invoke_unfold. cbn [fst].
  apply lnot_false in Hok. now rewrite Hok.
Qed.

Lemma invoke_failure (f : native) env c u s :
  failed (fst (query_of f u (os s))) -> fst (invoke f env c u s) = 0.
Proof.
  intros Hko. rewrite invoke_unfold. cbn [fst].
  apply lnot_true in Hko. now rewrite Hko.
Qed.

Lemma invoke_state (f : native) env c u s :
  snd (invoke f env c u s) =
    {| os := snd (query_of f u (os s)); pending := pending s; memory := memory s |}.
Proof. now rewrite invoke_unfold. Qed.

Lemma invoke_in_range (f : native) env c u s :
  Int64.in_range (fst (invoke f env c u s)).
Proof. rewrite invoke_unfold. apply Int64_signed_range. Qed.

End Calls.

(** ** The two accessors, one call at a time *)

(** C1. A call of [getCounter] whose [QueryPerformanceCounter] succeeds
    returns the 64-bit value the query left in the variable; a call whose
    query fails returns [0], whatever the query left there. *)
Theorem getCounter_spec `{P : Platform}
    (env : JNIEnv) (c : jclass) (u : Z) (s : State) :
  (succeeded (counter_query u s) ->
     fst (Java_com_gurock_smartinspect_Clock_getCounter env c u s)
       = Int64.signed (QuadPart (counter_query u s))) /\
  (failed (counter_query u s) ->
     fst (Java_com_gurock_smartinspect_Clock_getCounter env c u s) = 0).
Proof.
  split; intros Hq.
  - exact (invoke_success GetCounter env c u s Hq).
  - exact (invoke_failure GetCounter env c u s Hq).
Qed.

Lemma getCounter_spec_witness :
  fst (getCounter (P := steady_clock) 1 2 99 (start_state steady_clock 1000))
    = 1000 /\
  fst (getCounter (P := broken_clock) 1 2 99 (start_state broken_clock tt))
    = 0.
Proof.
  split.
  - apply (proj1 (getCounter_spec (P := steady_clock) 1 2 99
                    (start_state steady_clock 1000))).
    vm_compute. discriminate.
  - apply (proj2 (getCounter_spec (P := broken_clock) 1 2 99
                    (start_state broken_clock tt))).
    reflexivity.
Defined.

(** C2. A call of [getFrequency] whose [QueryPerformanceFrequency]
    succeeds returns the ticks-per-second value the query produced; a call
    whose query fails returns [0]. *)
Theorem getFrequency_spec `{P : Platform}
    (env : JNIEnv) (c : jclass) (u : Z) (s : State) :
  (succeeded (frequency_query u s) ->
     fst (Java_com_gurock_smartinspect_Clock_getFrequency env c u s)
       = Int64.signed (QuadPart (frequency_query u s))) /\
  (failed (frequency_query u s) ->
     fst (Java_com_gurock_smartinspect_Clock_getFrequency env c u s) = 0).
Proof.
  split; intros Hq.
  - exact (invoke_success GetFrequency env c u s Hq).
  - exact (invoke_failure GetFrequency env c u s Hq).
Qed.

Lemma getFrequency_spec_witness :
  fst (getFrequency (P := steady_clock) 1 2 99 (start_state steady_clock 1000))
    = 10000000 /\
  fst (getFrequency (P := broken_clock) 1 2 99 (start_state broken_clock tt))
    = 0.
Proof.
  split.
  - apply (proj1 (getFrequency_spec (P := steady_clock) 1 2 99
                    (start_state steady_clock 1000))).
    vm_compute. discriminate.
  - apply (proj2 (getFrequency_spec (P := broken_clock) 1 2 99
                    (start_state broken_clock tt))).
    reflexivity.
Defined.

(** C3. Whatever the query does, a call of either function runs to its
    [return] and yields a [jlong]; it leaves the pending exception of the
    calling thread as it found it, so a caller that had none sees a normal
    completion; and a failed query shows only as the returned value [0]. *)
Theorem native_returns_normally `{P : Platform}
    (f : native) (env : JNIEnv) (c : jclass) (u : Z) (s : State) :
  exists v : jlong,
    fst (invoke f env c u s) = v /\
    Int64.in_range v /\
    pending (snd (invoke f env c u s)) = pending s /\
    (pending s = None -> complete (invoke f env c u s) = Normal v) /\
    (failed (fst (query_of f u (os s))) ->
       pending s = None -> complete (invoke f env c u s) = Normal 0).
Proof.
  exists (fst (invoke f env c u s)).
  assert (Hp : pending (snd (invoke f env c u s)) = pending s)
    by now rewrite invoke_state.
  split; [reflexivity |].
  split; [apply invoke_in_range |].
  split; [exact Hp |].
  split.
  - intros Hnone. unfold complete. now rewrite Hp, Hnone.
  - intros Hko Hnone. unfold complete.
    rewrite Hp, Hnone. now rewrite (invoke_failure f env c u s Hko).
Qed.

Lemma native_returns_normally_witness :
  complete (invoke (P := broken_clock) GetCounter 1 2 99
              (start_state broken_clock tt)) = Normal 0 /\
  complete (invoke (P := broken_clock) GetFrequency 1 2 99
              (start_state broken_clock tt)) = Normal 0.
Proof.
  split.
  - destruct (native_returns_normally (P := broken_clock) GetCounter 1 2 99
                (start_state broken_clock tt)) as (v & _ & _ & _ & _ & H0).
    apply H0; reflexivity.
  - destruct (native_returns_normally (P := broken_clock) GetFrequency 1 2 99
                (start_state broken_clock tt)) as (v & _ & _ & _ & _ & H0).
    apply H0; reflexivity.
Defined.

(** ** Runs of calls *)

Section Runs.
Context `{P : Platform}.

Lemma consecutive_cons {A : Type} (call : Z -> M A) (u : Z) (us : list Z) (s : State) :
  consecutive call (u :: us) s =
    (fst (call u s) :: fst (consecutive call us (snd (call u s))),
     snd (consecutive call us (snd (call u s)))).
Proof.
  cbn [consecutive]. unfold bind_M, ret_M.
  destruct (call u s) as [v s1]. cbn [fst snd].
  destruct (consecutive call us s1) as [vs s2]. reflexivity.
Qed.

(** A run of calls touches nothing but the operating system's world. *)
Lemma consecutive_frame (f : native) (env : JNIEnv) (c : jclass)
    (us : list Z) (s : State) :
  pending (snd (consecutive (invoke f env c) us s)) = pending s /\
  memory (snd (consecutive (invoke f env c) us s)) = memory s.
Proof.
  revert s. induction us as [| u us IH]; intros s.
  - split; reflexivity.
  - rewrite consecutive_cons. cbn [snd].
    destruct (IH (snd (invoke f env c u s))) as [Hp Hm].
    rewrite Hp, Hm, invoke_state. split; reflexivity.
Qed.

(** When the query does not change the world, a run changes nothing. *)
Lemma consecutive_pure_read (f : native) (env : JNIEnv) (c : jclass) :
  (forall u w, snd (query_of f u w) = w) ->
  forall us s, snd (consecutive (invoke f env c) us s) = s.
Proof.
  intros Hread us. induction us as [| u us IH]; intros s.
  - reflexivity.
  - rewrite consecutive_cons. cbn [snd]. rewrite IH, invoke_state, Hread.
    now destruct s.
Qed.

(** The values of a run of [getCounter] are the readings of the trace,
    each passed through the failure test. *)
Lemma consecutive_getCounter_trace (env : JNIEnv) (c : jclass)
    (us : list Z) (s : State) :
  fst (consecutive (Java_com_gurock_smartinspect_Clock_getCounter env c) us s) =
    map (fun r => Int64.signed (if lnot (ok r) then 0 else QuadPart r))
        (query_trace QueryPerformanceCounter us (os s)).
Proof.
  revert s. induction us as [| u us IH]; intros s.
  - reflexivity.
  - rewrite consecutive_cons. cbn [fst query_trace].
    rewrite IH.
    change (Java_com_gurock_smartinspect_Clock_getCounter env c u s)
      with (invoke GetCounter env c u s).
    rewrite invoke_unfold. cbn [fst snd os query_of].
    destruct (QueryPerformanceCounter u (os s)) as [r w']. reflexivity.
Qed.

End Runs.

(** C5. Two calls of [getFrequency] whose queries both succeed with the
    same frequency return the same value, wherever in the run of the
    process they are made. *)
Theorem getFrequency_stable `{P : Platform}
    (env1 : JNIEnv) (c1 : jclass) (u1 : Z) (s1 : State)
    (env2 : JNIEnv) (c2 : jclass) (u2 : Z) (s2 : State) :
  succeeded (frequency_query u1 s1) ->
  succeeded (frequency_query u2 s2) ->
  Int64.signed (QuadPart (frequency_query u1 s1))
    = Int64.signed (QuadPart (frequency_query u2 s2)) ->
  fst (Java_com_gurock_smartinspect_Clock_getFrequency env1 c1 u1 s1)
    = fst (Java_com_gurock_smartinspect_Clock_getFrequency env2 c2 u2 s2).
Proof.
  intros H1 H2 Heq.
  pose proof (invoke_success GetFrequency env1 c1 u1 s1 H1) as E1.
  pose proof (invoke_success GetFrequency env2 c2 u2 s2 H2) as E2.
  exact (eq_trans E1 (eq_trans Heq (eq_sym E2))).
Qed.

Lemma getFrequency_stable_witness :
  let s1 := start_state steady_clock 1000 in
  let s2 := snd (getCounter (P := steady_clock) 1 2 5
                   (snd (getFrequency (P := steady_clock) 1 2 99 s1))) in
  fst (getFrequency (P := steady_clock) 1 2 99 s1)
    = fst (getFrequency (P := steady_clock) 3 4 77 s2).
Proof.
  intros s1 s2.
  apply (getFrequency_stable (P := steady_clock) 1 2 99 s1 3 4 77 s2).
  - vm_compute. discriminate.
  - vm_compute. discriminate.
  - reflexivity.
Defined.

(** C6. Neither function changes anything but what its query changes: the
    pending exception and the memory of the process are the same after a
    call as before, the world is the one the query left, and nothing is
    kept from one call to the next.  The same holds for any run of repeated
    calls, and when the query is a pure read the whole state is unchanged. *)
Theorem native_no_side_effect `{P : Platform}
    (f : native) (env : JNIEnv) (c : jclass) :
  (forall (u : Z) (s : State),
     pending (snd (invoke f env c u s)) = pending s /\
     memory (snd (invoke f env c u s)) = memory s /\
     os (snd (invoke f env c u s)) = snd (query_of f u (os s))) /\
  (forall (us : list Z) (s : State),
     pending (snd (consecutive (invoke f env c) us s)) = pending s /\
     memory (snd (consecutive (invoke f env c) us s)) = memory s) /\
  ((forall u w, snd (query_of f u w) = w) ->
   forall (us : list Z) (s : State),
     snd (consecutive (invoke f env c) us s) = s).
Proof.
  split; [| split].
  - intros u s. rewrite invoke_state. repeat split.
  - apply consecutive_frame.
  - apply consecutive_pure_read.
Qed.

Lemma native_no_side_effect_witness :
  let s := start_state steady_clock 1000 in
  snd (consecutive (invoke (P := steady_clock) GetFrequency 1 2) [5; 6; 7] s) = s.
Proof.
  intros s.
  apply (proj2 (proj2 (native_no_side_effect (P := steady_clock) GetFrequency 1 2))).
  intros u w. reflexivity.
Defined.

(** ** Zero: failure or reading *)

(** On any platform, a failed query and a successful query that reads zero
    give the caller the same value. *)
Lemma failure_looks_like_zero `{P : Platform}
    (f : native) (env : JNIEnv) (c : jclass) (u1 u2 : Z) (s1 s2 : State) :
  failed (fst (query_of f u1 (os s1))) ->
  succeeded (fst (query_of f u2 (os s2))) ->
  Int64.signed (QuadPart (fst (query_of f u2 (os s2)))) = 0 ->
  fst (invoke f env c u1 s1) = fst (invoke f env c u2 s2).
Proof.
  intros Hko Hok Hzero.
  rewrite (invoke_failure f env c u1 s1 Hko).
  rewrite (invoke_success f env c u2 s2 Hok). now rewrite Hzero.
Qed.

(** C7. There are a failing query and a succeeding query that reads zero
    for which [getFrequency], and likewise [getCounter], hand the caller the
    same thing: a normal completion with value [0]. *)
Theorem zero_is_ambiguous :
  exists (P : Platform) (s_fail s_zero : @State P) (u : Z),
    failed (frequency_query u s_fail) /\
    succeeded (frequency_query u s_zero) /\
    Int64.signed (QuadPart (frequency_query u s_zero)) = 0 /\
    failed (counter_query u s_fail) /\
    succeeded (counter_query u s_zero) /\
    Int64.signed (QuadPart (counter_query u s_zero)) = 0 /\
    complete (Java_com_gurock_smartinspect_Clock_getFrequency 1 2 u s_fail)
      = Normal 0 /\
    complete (Java_com_gurock_smartinspect_Clock_getFrequency 1 2 u s_zero)
      = Normal 0 /\
    complete (Java_com_gurock_smartinspect_Clock_getCounter 1 2 u s_fail)
      = Normal 0 /\
    complete (Java_com_gurock_smartinspect_Clock_getCounter 1 2 u s_zero)
      = Normal 0.
Proof.
  exists flaky_clock, (start_state flaky_clock false),
    (start_state flaky_clock true), 99.
  repeat split; vm_compute; congruence.
Qed.

(** ** The 64-bit result *)

(** C8. The value either function returns is a two's-complement 64-bit
    integer, and after a successful query it has the very 64 bits the query
    wrote: none is lost, and a reading that is itself a 64-bit signed number
    is returned unchanged. *)
Theorem native_result_is_jlong `{P : Platform}
    (f : native) (env : JNIEnv) (c : jclass) (u : Z) (s : State) :
  Int64.in_range (fst (invoke f env c u s)) /\
  (succeeded (fst (query_of f u (os s))) ->
     (forall n : Z, 0 <= n < 64 ->
        Z.testbit (fst (invoke f env c u s)) n
          = Z.testbit (QuadPart (fst (query_of f u (os s)))) n) /\
     (Int64.in_range (QuadPart (fst (query_of f u (os s)))) ->
        fst (invoke f env c u s) = QuadPart (fst (query_of f u (os s))))).
Proof.
  split; [apply invoke_in_range |].
  intros Hok. rewrite (invoke_success f env c u s Hok). split.
  - intros n Hn. now apply Int64_testbit_signed.
  - apply Int64_signed_of_range.
Qed.

Lemma native_result_is_jlong_witness :
  fst (invoke (P := steady_clock) GetCounter 1 2 99
         (start_state steady_clock 9223372036854775000))
    = 9223372036854775000.
Proof.
  apply (proj2 (native_result_is_jlong (P := steady_clock) GetCounter 1 2 99
                  (start_state steady_clock 9223372036854775000))).
  - vm_compute. discriminate.
  - vm_compute. split; discriminate.
Defined.

(** ** The unused arguments *)

(** C10. The [JNIEnv] and [jclass] arguments have no influence: two calls
    of the same function whose queries have the same outcome return the
    same value, whatever the two pairs of handles are. *)
Theorem native_ignores_handles `{P : Platform} (f : native)
    (env1 : JNIEnv) (c1 : jclass) (u1 : Z) (s1 : State)
    (env2 : JNIEnv) (c2 : jclass) (u2 : Z) (s2 : State) :
  fst (query_of f u1 (os s1)) = fst (query_of f u2 (os s2)) ->
  fst (invoke f env1 c1 u1 s1) = fst (invoke f env2 c2 u2 s2).
Proof.
  intros Hsame. rewrite !invoke_unfold. cbn [fst]. now rewrite Hsame.
Qed.

Lemma native_ignores_handles_witness :
  fst (invoke (P := steady_clock) GetCounter 1 2 99 (start_state steady_clock 1000))
    = fst (invoke (P := steady_clock) GetCounter 30 40 99 (start_state steady_clock 1000)).
Proof.
  apply (native_ignores_handles (P := steady_clock) GetCounter
           1 2 99 (start_state steady_clock 1000)
           30 40 99 (start_state steady_clock 1000)).
  reflexivity.
Defined.

(** ** Monotonic readings *)

(** The steady clock is a monotonic counter. *)
Lemma steady_clock_trace (us : list Z) (w : Z) (i : nat) (r : QueryResult) :
  query_trace (P := steady_clock) QueryPerformanceCounter us w !! i = Some r ->
  ok r = 1 /\ QuadPart r = reading (w + 3 * Z.of_nat i).
Proof.
  revert w i. induction us as [| u us IH]; intros w i Hi.
  - discriminate.
  - cbn [query_trace QueryPerformanceCounter steady_clock] in Hi.
    destruct i as [| i].
    + injection Hi as <-. cbn [ok QuadPart]. split; [reflexivity |].
      f_equal. lia.
    + apply IH in Hi. destruct Hi as [Hok Hq]. split; [exact Hok |].
      rewrite Hq. f_equal. lia.
Qed.

Lemma reading_signed (w : Z) : Int64.signed (reading w) = reading w.
Proof.
  apply Int64_signed_of_range.
  unfold Int64.in_range, reading, Int64.min_signed, Int64.max_signed. lia.
Qed.

Lemma steady_clock_monotonic : monotonic_counter (P := steady_clock).
Proof.
  intros w us i j ri rj Hij Hi Hj _ _.
  apply steady_clock_trace in Hi, Hj.
  destruct Hi as [_ ->], Hj as [_ ->].
  rewrite !reading_signed. unfold reading. lia.
Qed.

(** The wrapper adds no order of its own: on a counter that runs backwards
    the values it returns run backwards too. *)
Example falling_clock_values :
  fst (consecutive (getCounter (P := falling_clock) 1 2) [0; 0; 0]
         (start_state falling_clock 10)) = [10; 9; 8].
Proof. reflexivity. Qed.

(** C4. On a platform whose performance counter is monotonic, in any run of
    consecutive [getCounter] calls on a thread, whenever call [i] comes
    before call [j] and the queries of both succeed, the value call [i]
    returned is at most the value call [j] returned; calls that fail in
    between do not matter. *)
Theorem getCounter_monotonic `{P : Platform}
    (env : JNIEnv) (c : jclass) (us : list Z) (s : State)
    (i j : nat) (ri rj : QueryResult) (vi vj : jlong) :
  monotonic_counter ->
  (i < j)%nat ->
  query_trace QueryPerformanceCounter us (os s) !! i = Some ri ->
  query_trace QueryPerformanceCounter us (os s) !! j = Some rj ->
  succeeded ri -> succeeded rj ->
  fst (consecutive (Java_com_gurock_smartinspect_Clock_getCounter env c) us s)
    !! i = Some vi ->
  fst (consecutive (Java_com_gurock_smartinspect_Clock_getCounter env c) us s)
    !! j = Some vj ->
  vi <= vj.
Proof.
  intros Hmono Hij Hi Hj Hoki Hokj Hvi Hvj.
  rewrite consecutive_getCounter_trace in Hvi, Hvj.
  rewrite list_lookup_fmap in Hvi, Hvj.
  rewrite Hi in Hvi. rewrite Hj in Hvj.
  cbn in Hvi, Hvj. injection Hvi as <-. injection Hvj as <-.
  rewrite (proj2 (lnot_false (ok ri)) Hoki), (proj2 (lnot_false (ok rj)) Hokj).
  exact (Hmono (os s) us i j ri rj Hij Hi Hj Hoki Hokj).
Qed.

Lemma getCounter_monotonic_witness :
  monotonic_counter (P := steady_clock) /\
  fst (consecutive (getCounter (P := steady_clock) 1 2) [0; 0; 0]
         (start_state steady_clock 1000)) !! 0%nat = Some 1000 /\
  fst (consecutive (getCounter (P := steady_clock) 1 2) [0; 0; 0]
         (start_state steady_clock 1000)) !! 2%nat = Some 1006 /\
  1000 <= 1006.
Proof.
  split; [exact steady_clock_monotonic |].
  split; [reflexivity |]. split; [reflexivity |].
  apply (getCounter_monotonic (P := steady_clock) 1 2 [0; 0; 0]
           (start_state steady_clock 1000) 0 2
           (mkQueryResult 1 1000) (mkQueryResult 1 1006) 1000 1006).
  - exact steady_clock_monotonic.
  - lia.
  - reflexivity.
  - reflexivity.
  - vm_compute. discriminate.
  - vm_compute. discriminate.
  - reflexivity.
  - reflexivity.
Defined.

(** ** Calls in several threads *)

Section Threads.
Context `{P : Platform}.

(** One statement of a frame: what it does to the state. *)
Lemma step_frame_state (f : native) (fr : frame) (s : State) :
  pending (snd (step_frame f fr s)) = pending s /\
  memory (snd (step_frame f fr s)) = memory s /\
  (os (snd (step_frame f fr s)) = os s \/
   exists u, os (snd (step_frame f fr s)) = snd (query_of f u (os s))).
Proof.
  destruct fr as [u | t u | u | u | v]; cbn [step_frame];
    unfold bind_M, syscall, ret_M; cbn [snd]; auto.
  destruct (query_of f u (os s)) as [r w] eqn:Hq. cbn [snd os pending memory].
  split; [reflexivity |]. split; [reflexivity |].
  right. exists u. now rewrite Hq.
Qed.

Lemma reachable_query (w0 w : World) (f : native) (u : Z) :
  reachable w0 w -> reachable w0 (snd (query_of f u w)).
Proof.
  intros Hw. destruct f; cbn [query_of].
  - now apply reach_counter.
  - now apply reach_frequency.
Qed.

(** One statement keeps a frame in line with the history of the world. *)
Lemma step_frame_ok (w0 : World) (f : native) (env : JNIEnv) (c : jclass)
    (u : Z) (fr : frame) (s : State) :
  reachable w0 (os s) ->
  frame_ok w0 (pending s) (memory s) f env c u fr ->
  frame_ok w0 (pending s) (memory s) f env c u (fst (step_frame f fr s)).
Proof.
  intros Hs Hfr.
  destruct fr as [local | t local | local | local | v]; cbn [step_frame frame_ok] in *.
  - subst local. unfold bind_M, syscall, ret_M.
    destruct (query_of f u (os s)) as [r w] eqn:Hq. cbn [fst frame_ok].
    exists (os s). split; [exact Hs |]. rewrite Hq. now destruct r.
  - destruct Hfr as (w & Hw & Hq). unfold ret_M. cbn [fst].
    destruct (lnot t) eqn:Ht; cbn [frame_ok]; exists w; (split; [exact Hw |]).
    + unfold failed. rewrite Hq. cbn [ok]. now apply lnot_true.
    + rewrite invoke_unfold. cbn [fst os]. rewrite Hq. cbn [ok QuadPart].
      now rewrite Ht.
  - destruct Hfr as (w & Hw & Hko). unfold ret_M. cbn [fst frame_ok].
    exists w. split; [exact Hw |].
    rewrite (invoke_failure f env c u
               {| os := w; pending := pending s; memory := memory s |} Hko).
    reflexivity.
  - exact Hfr.
  - exact Hfr.
Qed.

(** A frame that has not returned gets closer to its [return]. *)
Lemma step_frame_remaining (f : native) (fr : frame) (s : State) :
  (0 < remaining fr)%nat ->
  (remaining (fst (step_frame f fr s)) < remaining fr)%nat.
Proof.
  destruct fr as [local | t local | local | local | v]; cbn [step_frame remaining];
    unfold bind_M, syscall, ret_M; intros Hpos.
  - destruct (query_of f local (os s)). cbn. lia.
  - cbn [fst]. destruct (lnot t); cbn; lia.
  - cbn. lia.
  - cbn. lia.
  - lia.
Qed.

(** What [step] does to the pool and to the state. *)
Lemma step_lookup_same (i : nat) (m : Machine) (t : thread) :
  pool m !! i = Some t ->
  pool (step i m) !! i =
    Some (mkThread (entry t) (t_env t) (t_class t)
            (fst (step_frame (entry t) (at_frame t) (shared m)))) /\
  shared (step i m) = snd (step_frame (entry t) (at_frame t) (shared m)).
Proof.
  intros Hi. unfold step. rewrite Hi.
  destruct (step_frame (entry t) (at_frame t) (shared m)) as [fr s].
  cbn [pool shared fst snd]. split; [| reflexivity].
  apply list_lookup_insert_eq. now apply lookup_lt_Some in Hi.
Qed.

Lemma step_lookup_other (i j : nat) (m : Machine) :
  i <> j -> pool (step i m) !! j = pool m !! j.
Proof.
  intros Hij. unfold step. destruct (pool m !! i) as [t |] eqn:Hi; [| reflexivity].
  destruct (step_frame (entry t) (at_frame t) (shared m)) as [fr s].
  cbn [pool]. now apply list_lookup_insert_ne.
Qed.

Lemma step_absent (i : nat) (m : Machine) :
  pool m !! i = None -> step i m = m.
Proof. intros Hi. unfold step. now rewrite Hi. Qed.

Lemma run_cons (i : nat) (schedule : list nat) (m : Machine) :
  run (i :: schedule) m = run schedule (step i m).
Proof. reflexivity. Qed.

(** The machine starts in line with its list of calls. *)
Lemma consistent_spawn (calls : list (native * JNIEnv * jclass * Z)) (s0 : State) :
  consistent calls s0 {| shared := s0; pool := spawn calls |}.
Proof.
  unfold consistent. cbn [shared pool].
  split; [apply reach_here |]. split; [reflexivity |]. split; [reflexivity |].
  intros i t Hi. unfold spawn in Hi. rewrite list_lookup_fmap in Hi.
  destruct (calls !! i) as [[[[f env] c] u] |] eqn:Hc; [| discriminate].
  cbn in Hi. injection Hi as <-. cbn [entry t_env t_class at_frame].
  exists u. split; reflexivity.
Qed.

(** Every statement of every thread keeps it so. *)
Lemma consistent_step (calls : list (native * JNIEnv * jclass * Z))
    (s0 : State) (i : nat) (m : Machine) :
  consistent calls s0 m -> consistent calls s0 (step i m).
Proof.
  intros (Hreach & Hp & Hm & Hpool).
  destruct (pool m !! i) as [t |] eqn:Hi.
  2: { rewrite (step_absent i m Hi). repeat split; assumption. }
  destruct (step_lookup_same i m t Hi) as [Hpool_i Hshared].
  destruct (step_frame_state (entry t) (at_frame t) (shared m))
    as (Hp' & Hm' & Hos').
  unfold consistent. rewrite Hshared.
  split; [| split; [congruence | split; [congruence |]]].
  - destruct Hos' as [-> | [u ->]]; [exact Hreach |].
    now apply reachable_query.
  - intros k t' Hk. destruct (Nat.eq_dec i k) as [<- | Hne].
    + rewrite Hpool_i in Hk. injection Hk as <-.
      cbn [entry t_env t_class at_frame].
      destruct (Hpool i t Hi) as (u & Hcall & Hfr). exists u.
      split; [exact Hcall |].
      rewrite <- Hp, <- Hm in Hfr |- *.
      now apply step_frame_ok.
    + rewrite (step_lookup_other i k m Hne) in Hk. now apply Hpool.
Qed.

Lemma consistent_run (calls : list (native * JNIEnv * jclass * Z))
    (s0 : State) (schedule : list nat) (m : Machine) :
  consistent calls s0 m -> consistent calls s0 (run schedule m).
Proof.
  revert m. induction schedule as [| i schedule IH]; intros m Hm.
  - exact Hm.
  - rewrite run_cons. apply IH. now apply consistent_step.
Qed.

(** A thread that is given a turn moves, whatever the others are at. *)
Lemma remaining_at_step_same (i : nat) (m : Machine) :
  (remaining_at i (step i m) <= remaining_at i m - 1)%nat.
Proof.
  unfold remaining_at at 2. destruct (pool m !! i) as [t |] eqn:Hi.
  - destruct (step_lookup_same i m t Hi) as [Hpool_i _].
    unfold remaining_at. rewrite Hpool_i. cbn [at_frame].
    destruct (Nat.eq_dec (remaining (at_frame t)) 0) as [Hz | Hnz].
    + destruct (at_frame t); try discriminate. cbn. lia.
    + pose proof (step_frame_remaining (entry t) (at_frame t) (shared m)). lia.
  - rewrite (step_absent i m Hi). unfold remaining_at. rewrite Hi. lia.
Qed.

Lemma remaining_at_step_other (i j : nat) (m : Machine) :
  i <> j -> remaining_at j (step i m) = remaining_at j m.
Proof.
  intros Hij. unfold remaining_at. now rewrite (step_lookup_other i j m Hij).
Qed.

Lemma turns_cons_same (i : nat) (schedule : list nat) :
  turns i (i :: schedule) = S (turns i schedule).
Proof. unfold turns. now rewrite filter_cons_True. Qed.

Lemma turns_cons_other (i k : nat) (schedule : list nat) :
  k <> i -> turns i (k :: schedule) = turns i schedule.
Proof. intros Hne. unfold turns. now rewrite filter_cons_False. Qed.

(** Every turn a thread gets takes one statement off what it has left. *)
Lemma remaining_at_run (i : nat) (schedule : list nat) (m : Machine) :
  (remaining_at i (run schedule m) <= remaining_at i m - turns i schedule)%nat.
Proof.
  revert m. induction schedule as [| k schedule IH]; intros m.
  - cbn. lia.
  - rewrite run_cons. specialize (IH (step k m)).
    destruct (Nat.eq_dec k i) as [-> | Hne].
    + rewrite turns_cons_same. pose proof (remaining_at_step_same i m). lia.
    + rewrite (turns_cons_other i k schedule Hne).
      now rewrite (remaining_at_step_other k i m Hne) in IH.
Qed.

Lemma remaining_at_spawn (calls : list (native * JNIEnv * jclass * Z))
    (s0 : State) (i : nat) :
  (remaining_at i {| shared := s0; pool := spawn calls |} <= 4)%nat.
Proof.
  unfold remaining_at. cbn [pool]. unfold spawn. rewrite list_lookup_fmap.
  destruct (calls !! i) as [[[[f env] c] u] |]; cbn; lia.
Qed.

(** A thread on its own: four turns run the function from entry to return,
    with the value and the state of the state-passing function. *)
Lemma run_alone (f : native) (env : JNIEnv) (c : jclass) (u : Z) (s : State) :
  run [0; 0; 0; 0]%nat {| shared := s; pool := spawn [(f, env, c, u)] |} =
    {| shared := snd (invoke f env c u s);
       pool := [mkThread f env c (Returned (fst (invoke f env c u s)))] |}.
Proof.
  rewrite invoke_unfold. cbn [fst snd].
  unfold run, spawn. cbn [foldl map].
  unfold step at 4. cbn [pool lookup list_lookup entry at_frame shared step_frame].
  unfold bind_M, syscall, ret_M.
  destruct (query_of f u (os s)) as [[t q] w]. cbn [fst snd ok QuadPart].
  destruct (lnot t) eqn:Ht; cbn; rewrite ?Ht; reflexivity.
Qed.

End Threads.

(** C9. Any number of threads may be inside the two functions at once.
    Under every schedule of their statements: the threads share nothing but
    the operating system's world (the pending exception and the memory of
    the process stay as they were, and a statement of one thread leaves the
    frames of the others alone); no thread ever waits for another (a thread
    that has not returned moves at each of its turns, and has returned after
    four turns at most); and a call that has returned has returned a
    64-bit value decided by the answer the operating system gave to its own
    query: either that query succeeded and the value is its reading, or it
    failed and the value is [0], never a mix of two and never what a failed
    query left behind.  It is also the value the function computes when
    called on its own in the world its query ran in. *)
Theorem native_concurrent_calls `{P : Platform}
    (calls : list (native * JNIEnv * jclass * Z)) (s0 : State)
    (schedule : list nat) :
  let m := run schedule {| shared := s0; pool := spawn calls |} in
  (pending (shared m) = pending s0 /\ memory (shared m) = memory s0) /\
  (forall i j : nat, i <> j -> pool (step i m) !! j = pool m !! j) /\
  (forall (i : nat) (t : thread),
     pool m !! i = Some t -> (0 < remaining (at_frame t))%nat ->
     exists t', pool (step i m) !! i = Some t' /\
       (remaining (at_frame t') < remaining (at_frame t))%nat) /\
  (forall (i : nat) (t : thread),
     pool m !! i = Some t -> (4 <= turns i schedule)%nat ->
     exists v, at_frame t = Returned v) /\
  (forall (i : nat) (t : thread) (v : jlong),
     pool m !! i = Some t -> at_frame t = Returned v ->
     Int64.in_range v /\
     exists (u : Z) (w : World),
       calls !! i = Some (entry t, t_env t, t_class t, u) /\
       reachable (os s0) w /\
       ((succeeded (fst (query_of (entry t) u w)) /\
         v = Int64.signed (QuadPart (fst (query_of (entry t) u w)))) \/
        (failed (fst (query_of (entry t) u w)) /\ v = 0)) /\
       v = fst (invoke (entry t) (t_env t) (t_class t) u
                  {| os := w; pending := pending s0; memory := memory s0 |})).
Proof.
  intros m.
  assert (Hinv : consistent calls s0 m)
    by (apply consistent_run, consistent_spawn).
  destruct Hinv as (_ & Hp & Hm & Hpool).
  split; [split; assumption |].
  split; [intros i j Hij; now apply step_lookup_other |].
  split; [| split].
  - intros i t Hi Hpos.
    destruct (step_lookup_same i m t Hi) as [Hpool_i _].
    eexists. split; [exact Hpool_i |]. cbn [at_frame].
    now apply step_frame_remaining.
  - intros i t Hi Hturns.
    pose proof (remaining_at_run i schedule {| shared := s0; pool := spawn calls |})
      as Hrun.
    pose proof (remaining_at_spawn calls s0 i) as Hstart.
    fold m in Hrun. unfold remaining_at at 1 in Hrun. rewrite Hi in Hrun.
    destruct (at_frame t) as [? | ? ? | ? | ? | v]; cbn [remaining] in Hrun;
      try lia.
    now exists v.
  - intros i t v Hi Hv.
    destruct (Hpool i t Hi) as (u & Hcall & Hfr).
    rewrite Hv in Hfr. cbn [frame_ok] in Hfr. destruct Hfr as (w & Hw & ->).
    split; [apply invoke_in_range |].
    exists u, w.
    split; [exact Hcall |]. split; [exact Hw |]. split; [| reflexivity].
    destruct (Z.eq_dec (ok (fst (query_of (entry t) u w))) 0) as [Hko | Hok].
    + right. split; [exact Hko |].
      exact (invoke_failure (entry t) (t_env t) (t_class t) u
               {| os := w; pending := pending s0; memory := memory s0 |} Hko).
    + left. split; [exact Hok |].
      exact (invoke_success (entry t) (t_env t) (t_class t) u
               {| os := w; pending := pending s0; memory := memory s0 |} Hok).
Qed.

Lemma native_concurrent_calls_witness :
  let calls := [(GetCounter, 1, 2, 7); (GetFrequency, 1, 2, 0);
                (GetCounter, 3, 4, 9)] in
  let m := run (P := stuttering_clock) [2; 0; 1; 0; 2; 1; 1; 2; 0; 2]%nat
             {| shared := start_state stuttering_clock 1001;
                pool := spawn calls |} in
  pool m !! 0%nat = Some (mkThread GetCounter 1 2 (Returned 1002)) /\
  pool m !! 1%nat = Some (mkThread GetFrequency 1 2 (Returned 10000000)) /\
  pool m !! 2%nat = Some (mkThread GetCounter 3 4 (Returned 0)) /\
  failed (fst (query_of (P := stuttering_clock) GetCounter 9 1001)) /\
  succeeded (fst (query_of (P := stuttering_clock) GetCounter 7 1002)) /\
  Int64.in_range 0 /\ Int64.in_range 1002.
Proof.
  intros calls m.
  split; [reflexivity |]. split; [reflexivity |]. split; [reflexivity |].
  split; [reflexivity |]. split; [vm_compute; discriminate |].
  pose proof (native_concurrent_calls (P := stuttering_clock) calls
                (start_state stuttering_clock 1001)
                [2; 0; 1; 0; 2; 1; 1; 2; 0; 2]%nat) as H.
  destruct H as (_ & _ & _ & _ & Hret).
  split.
  - exact (proj1 (Hret 2%nat (mkThread GetCounter 3 4 (Returned 0)) 0
                    eq_refl eq_refl)).
  - exact (proj1 (Hret 0%nat (mkThread GetCounter 1 2 (Returned 1002)) 1002
                    eq_refl eq_refl)).
Defined.

(** * Further properties of the two functions *)

(** ** Reading the result *)

(** X1. A result that is not [0] can only come from a query that succeeded,
    and is then the reading itself: a caller that sees a value other than
    zero holds a genuine counter or frequency. *)
Theorem nonzero_result_is_reading `{P : Platform}
    (f : native) (env : JNIEnv) (c : jclass) (u : Z) (s : State) :
  fst (invoke f env c u s) <> 0 ->
  succeeded (fst (query_of f u (os s))) /\
  fst (invoke f env c u s) = Int64.signed (QuadPart (fst (query_of f u (os s)))).
Proof.
  intros Hnz.
  destruct (Z.eq_dec (ok (fst (query_of f u (os s)))) 0) as [Hko | Hok].
  - exfalso. apply Hnz. now apply invoke_failure.
  - split; [exact Hok |]. now apply invoke_success.
Qed.

Lemma nonzero_result_is_reading_witness :
  succeeded (fst (query_of (P := steady_clock) GetCounter 99 1000)) /\
  fst (invoke (P := steady_clock) GetCounter 1 2 99 (start_state steady_clock 1000))
    = 1000.
Proof.
  apply (nonzero_result_is_reading (P := steady_clock) GetCounter 1 2 99
           (start_state steady_clock 1000)).
  vm_compute. discriminate.
Defined.

(** ** One query per call *)

Section Traces.
Context `{P : Platform}.

Lemma consecutive_invoke_trace (f : native) (env : JNIEnv) (c : jclass)
    (us : list Z) (s : State) :
  fst (consecutive (invoke f env c) us s) =
    map (fun r => if lnot (ok r) then 0 else Int64.signed (QuadPart r))
        (query_trace (query_of f) us (os s)).
Proof.
  revert s. induction us as [| u us IH]; intros s.
  - reflexivity.
  - rewrite consecutive_cons. cbn [fst query_trace].
    rewrite IH, invoke_unfold. cbn [fst snd os].
    destruct (query_of f u (os s)) as [r w']. cbn [fst snd map].
    now destruct (lnot (ok r)).
Qed.

Lemma consecutive_invoke_world (f : native) (env : JNIEnv) (c : jclass)
    (us : list Z) (s : State) :
  os (snd (consecutive (invoke f env c) us s)) = query_world (query_of f) us (os s).
Proof.
  revert s. induction us as [| u us IH]; intros s.
  - reflexivity.
  - rewrite consecutive_cons. cbn [snd query_world].
    rewrite IH, invoke_state. reflexivity.
Qed.

End Traces.

(** X2. A run of calls makes one query per call, in order, each in the
    world the previous one left, and never a second one after a failure.
    The value of call [i] depends on query [i] alone: [0] if it failed, its
    reading if it succeeded, whatever the calls before it returned (a
    failure does not stick and a reading is not kept). *)
Theorem run_follows_queries `{P : Platform}
    (f : native) (env : JNIEnv) (c : jclass) (us : list Z) (s : State) :
  os (snd (consecutive (invoke f env c) us s))
    = query_world (query_of f) us (os s) /\
  length (fst (consecutive (invoke f env c) us s)) = length us /\
  forall (i : nat) (r : QueryResult),
    query_trace (query_of f) us (os s) !! i = Some r ->
    (failed r -> fst (consecutive (invoke f env c) us s) !! i = Some 0) /\
    (succeeded r ->
       fst (consecutive (invoke f env c) us s) !! i
         = Some (Int64.signed (QuadPart r))).
Proof.
  split; [apply consecutive_invoke_world |].
  rewrite consecutive_invoke_trace. split.
  - rewrite length_map. revert s.
    induction us as [| u us IH]; intros s; cbn [query_trace]; [reflexivity |].
    destruct (query_of f u (os s)) as [r w'] eqn:Hq. cbn [length].
    f_equal. specialize (IH {| os := w'; pending := pending s; memory := memory s |}).
    exact IH.
  - intros i r Hi. rewrite list_lookup_fmap, Hi. cbn.
    split; intros Hr.
    + now rewrite (proj2 (lnot_true (ok r)) Hr).
    + now rewrite (proj2 (lnot_false (ok r)) Hr).
Qed.

Lemma run_follows_queries_witness :
  fst (consecutive (invoke (P := stuttering_clock) GetCounter 1 2) [7; 7; 7]
         (start_state stuttering_clock 1001)) !! 0%nat = Some 0 /\
  fst (consecutive (invoke (P := stuttering_clock) GetCounter 1 2) [7; 7; 7]
         (start_state stuttering_clock 1001)) !! 1%nat = Some 1002.
Proof.
  pose proof (run_follows_queries (P := stuttering_clock) GetCounter 1 2
                [7; 7; 7] (start_state stuttering_clock 1001)) as (_ & _ & H).
  split.
  - apply (proj1 (H 0%nat (mkQueryResult 0 7) eq_refl)). reflexivity.
  - apply (proj2 (H 1%nat (mkQueryResult 1 1002) eq_refl)).
    vm_compute. discriminate.
Defined.

(** ** Concurrent calls are calls in some order *)

Section Linearization.
Context `{P : Platform}.

(** The query is the only statement that touches the state, and it does
    what the whole call does to it; the value is settled there. *)
Lemma step_frame_at_query (f : native) (env : JNIEnv) (c : jclass) (u : Z)
    (s : State) :
  snd (step_frame f (Entered u) s) = snd (invoke f env c u s) /\
  outcome (fst (step_frame f (Entered u) s)) = Some (fst (invoke f env c u s)).
Proof.
  rewrite invoke_unfold. cbn [step_frame fst snd].
  unfold bind_M, syscall, ret_M.
  destruct (query_of f u (os s)) as [r w]. cbn [fst snd outcome]. split; reflexivity.
Qed.

Lemma step_frame_after_query (f : native) (fr : frame) (s : State) (v : jlong) :
  outcome fr = Some v ->
  snd (step_frame f fr s) = s /\ outcome (fst (step_frame f fr s)) = Some v.
Proof.
  destruct fr as [local | t local | local | local | v']; cbn [outcome step_frame];
    unfold ret_M; cbn [fst snd]; intros Hv; try discriminate.
  - split; [reflexivity |]. destruct (lnot t); exact Hv.
  - split; [reflexivity | exact Hv].
  - split; [reflexivity | exact Hv].
  - split; [reflexivity | exact Hv].
Qed.

Lemma sequential_cons_call (calls : list (native * JNIEnv * jclass * Z))
    (i : nat) (rest : list nat) (f : native) (env : JNIEnv) (c : jclass)
    (u : Z) (s : State) :
  calls !! i = Some (f, env, c, u) ->
  sequential calls (i :: rest) s =
    ((i, fst (invoke f env c u s))
       :: fst (sequential calls rest (snd (invoke f env c u s))),
     snd (sequential calls rest (snd (invoke f env c u s)))).
Proof.
  intros Hi. cbn [sequential]. rewrite Hi. unfold bind_M, ret_M.
  destruct (invoke f env c u s) as [v s1]. cbn [fst snd].
  destruct (sequential calls rest s1) as [vs s2]. reflexivity.
Qed.

Lemma sequential_cons_none (calls : list (native * JNIEnv * jclass * Z))
    (i : nat) (rest : list nat) (s : State) :
  calls !! i = None -> sequential calls (i :: rest) s = sequential calls rest s.
Proof. intros Hi. cbn [sequential]. now rewrite Hi. Qed.

End Linearization.

Lemma first_turns_fresh (seen schedule : list nat) (i : nat) :
  i ∈ first_turns seen schedule -> i ∉ seen.
Proof.
  revert seen. induction schedule as [| k rest IH]; intros seen Hi.
  - cbn in Hi. now apply not_elem_of_nil in Hi.
  - cbn [first_turns] in Hi. destruct (decide (k ∈ seen)) as [Hk | Hk].
    + now apply IH.
    + apply elem_of_cons in Hi as [-> | Hi]; [exact Hk |].
      apply IH in Hi. intros Hin. apply Hi. now apply elem_of_cons; right.
Qed.

Lemma first_turns_NoDup (seen schedule : list nat) :
  NoDup (first_turns seen schedule).
Proof.
  revert seen. induction schedule as [| k rest IH]; intros seen.
  - constructor.
  - cbn [first_turns]. destruct (decide (k ∈ seen)) as [Hk | Hk]; [apply IH |].
    constructor; [| apply IH].
    intros Hin. apply first_turns_fresh in Hin. apply Hin.
    now apply elem_of_cons; left.
Qed.

Lemma if_elem_of_cons_ne (i k : nat) (seen : list nat) (A B : Prop) :
  i <> k ->
  (if decide (i ∈ seen) then A else B) ->
  (if decide (i ∈ k :: seen) then A else B).
Proof.
  intros Hne H.
  destruct (decide (i ∈ seen)) as [Hin | Hout],
    (decide (i ∈ k :: seen)) as [Hin' | Hout']; try assumption.
  - exfalso. apply Hout'. now apply elem_of_cons; right.
  - exfalso. apply elem_of_cons in Hin' as [-> | Hin']; [now apply Hne | now apply Hout].
Qed.

Section Interleavings.
Context `{P : Platform}.
Implicit Types (calls : list (native * JNIEnv * jclass * Z)) (m : Machine).

Lemma step_length (k : nat) m : length (pool (step k m)) = length (pool m).
Proof.
  unfold step. destruct (pool m !! k) as [t |]; [| reflexivity].
  destruct (step_frame (entry t) (at_frame t) (shared m)) as [fr s].
  cbn [pool]. apply length_insert.
Qed.

Lemma queried_exactly_spawn calls (s0 : State) :
  queried_exactly calls [] {| shared := s0; pool := spawn calls |}.
Proof.
  split; cbn [pool].
  - unfold spawn. apply length_map.
  - intros i t Hi. unfold spawn in Hi. rewrite list_lookup_fmap in Hi.
    destruct (calls !! i) as [[[[f env] c] u] |] eqn:Hc; [| discriminate].
    cbn in Hi. injection Hi as <-. cbn [entry t_env t_class at_frame].
    exists u. split; [reflexivity |].
    destruct (decide (i ∈ [])) as [Hin | _]; [| reflexivity].
    now apply not_elem_of_nil in Hin.
Qed.

(** A turn of a thread that has made its query: the state stays, and so
    does every value that is settled. *)
Lemma step_after_query calls (seen : list nat) (k : nat) m :
  k ∈ seen -> queried_exactly calls seen m ->
  queried_exactly calls seen (step k m) /\
  shared (step k m) = shared m /\
  forall (i : nat) (t' : thread) (v : jlong),
    pool (step k m) !! i = Some t' -> outcome (at_frame t') = Some v ->
    exists t0, pool m !! i = Some t0 /\ outcome (at_frame t0) = Some v.
Proof.
  intros Hk [Hlen Hpool].
  destruct (pool m !! k) as [t |] eqn:Hpk.
  2: { rewrite (step_absent k m Hpk). split; [split; assumption |].
       split; [reflexivity |]. intros i t' v Hi Hv. now exists t'. }
  destruct (Hpool k t Hpk) as (u & Hcall & Hfr).
  destruct (decide (k ∈ seen)) as [_ | Hout]; [| contradiction].
  destruct Hfr as [v0 Hv0].
  destruct (step_lookup_same k m t Hpk) as [Hpool_k Hshared].
  destruct (step_frame_after_query (entry t) (at_frame t) (shared m) v0 Hv0)
    as [Hs Ho].
  split; [split |].
  - now rewrite step_length.
  - intros i t' Hi. destruct (Nat.eq_dec k i) as [<- | Hne].
    + rewrite Hpool_k in Hi. injection Hi as <-.
      cbn [entry t_env t_class at_frame]. exists u. split; [exact Hcall |].
      destruct (decide (k ∈ seen)) as [_ | Hout]; [| contradiction].
      rewrite Ho. now eexists.
    + rewrite (step_lookup_other k i m Hne) in Hi. now apply Hpool.
  - split; [now rewrite Hshared |].
    intros i t' v Hi Hv. destruct (Nat.eq_dec k i) as [<- | Hne].
    + rewrite Hpool_k in Hi. injection Hi as <-. cbn [at_frame] in Hv.
      exists t. split; [exact Hpk |]. congruence.
    + rewrite (step_lookup_other k i m Hne) in Hi. now exists t'.
Qed.

(** The first turn of a thread: the state moves as the whole call moves
    it, and the value of the call is settled. *)
Lemma step_first_turn calls (seen : list nat) (k : nat) m (t : thread) :
  k ∉ seen -> queried_exactly calls seen m -> pool m !! k = Some t ->
  exists u : Z,
    calls !! k = Some (entry t, t_env t, t_class t, u) /\
    queried_exactly calls (k :: seen) (step k m) /\
    shared (step k m) = snd (invoke (entry t) (t_env t) (t_class t) u (shared m)) /\
    forall (i : nat) (t' : thread) (v : jlong),
      pool (step k m) !! i = Some t' -> outcome (at_frame t') = Some v ->
      (i = k /\ v = fst (invoke (entry t) (t_env t) (t_class t) u (shared m))) \/
      (exists t0, pool m !! i = Some t0 /\ outcome (at_frame t0) = Some v).
Proof.
  intros Hk [Hlen Hpool] Hpk.
  destruct (Hpool k t Hpk) as (u & Hcall & Hfr).
  destruct (decide (k ∈ seen)) as [Hin | _]; [contradiction |].
  exists u. split; [exact Hcall |].
  destruct (step_lookup_same k m t Hpk) as [Hpool_k Hshared].
  rewrite Hfr in Hpool_k, Hshared.
  destruct (step_frame_at_query (entry t) (t_env t) (t_class t) u (shared m))
    as [Hs Ho].
  split; [split |].
  - now rewrite step_length.
  - intros i t' Hi. destruct (Nat.eq_dec k i) as [<- | Hne].
    + rewrite Hpool_k in Hi. injection Hi as <-.
      cbn [entry t_env t_class at_frame]. exists u. split; [exact Hcall |].
      destruct (decide (k ∈ k :: seen)) as [_ | Hout].
      * eexists. exact Ho.
      * exfalso. apply Hout. now apply elem_of_cons; left.
    + rewrite (step_lookup_other k i m Hne) in Hi.
      destruct (Hpool i t' Hi) as (u' & Hcall' & Hfr').
      exists u'. split; [exact Hcall' |].
      apply if_elem_of_cons_ne; [congruence | exact Hfr'].
  - split; [now rewrite Hshared, Hs |].
    intros i t' v Hi Hv. destruct (Nat.eq_dec k i) as [<- | Hne].
    + left. split; [reflexivity |].
      rewrite Hpool_k in Hi. injection Hi as <-.
      pose proof (eq_trans (eq_sym Ho) Hv) as E. now injection E.
    + right. rewrite (step_lookup_other k i m Hne) in Hi. now exists t'.
Qed.

(** A turn given to a thread that does not exist. *)
Lemma queried_exactly_absent calls (seen : list nat) (k : nat) m :
  queried_exactly calls seen m -> pool m !! k = None ->
  queried_exactly calls (k :: seen) m /\ calls !! k = None.
Proof.
  intros [Hlen Hpool] Hpk. split; [split; [exact Hlen |] |].
  - intros i t Hi. destruct (Hpool i t Hi) as (u & Hcall & Hfr).
    exists u. split; [exact Hcall |].
    apply if_elem_of_cons_ne; [congruence | exact Hfr].
  - apply lookup_ge_None. rewrite <- Hlen. now apply lookup_ge_None.
Qed.

End Interleavings.

Lemma first_turns_scheduled (seen schedule : list nat) (i : nat) :
  i ∈ first_turns seen schedule -> i ∈ schedule.
Proof.
  revert seen. induction schedule as [| k rest IH]; intros seen Hi.
  - exact Hi.
  - cbn [first_turns] in Hi. apply elem_of_cons.
    destruct (decide (k ∈ seen)) as [Hk | Hk].
    + right. now apply (IH seen).
    + apply elem_of_cons in Hi as [-> | Hi]; [now left | right].
      now apply (IH (k :: seen)).
Qed.

Section Sequential.
Context `{P : Platform}.
Implicit Types (calls : list (native * JNIEnv * jclass * Z)) (m : Machine).

(** Whatever the schedule, the machine ends in the state, and its threads
    with the values, of the calls made one after the other in the order of
    their first turns. *)
Lemma run_is_sequential calls (schedule seen : list nat) m :
  queried_exactly calls seen m ->
  shared (run schedule m)
    = snd (sequential calls (first_turns seen schedule) (shared m)) /\
  forall (i : nat) (t : thread) (v : jlong),
    pool (run schedule m) !! i = Some t -> outcome (at_frame t) = Some v ->
    (i, v) ∈ fst (sequential calls (first_turns seen schedule) (shared m)) \/
    (exists t0, pool m !! i = Some t0 /\ outcome (at_frame t0) = Some v).
Proof.
  revert seen m. induction schedule as [| k rest IH]; intros seen m Hm.
  - split; [reflexivity |]. intros i t v Hi Hv. right. now exists t.
  - rewrite run_cons. cbn [first_turns].
    destruct (decide (k ∈ seen)) as [Hk | Hk].
    + destruct (step_after_query calls seen k m Hk Hm) as (Hm' & Hs & Hold).
      destruct (IH seen (step k m) Hm') as [Hstate Hvalues].
      rewrite Hs in Hstate, Hvalues. split; [exact Hstate |].
      intros i t v Hi Hv.
      destruct (Hvalues i t v Hi Hv) as [Hin | (t0 & Hi0 & Hv0)]; [now left |].
      right. now apply (Hold i t0 v).
    + destruct (pool m !! k) as [t |] eqn:Hpk.
      * destruct (step_first_turn calls seen k m t Hk Hm Hpk)
          as (u & Hcall & Hm' & Hs & Hold).
        destruct (IH (k :: seen) (step k m) Hm') as [Hstate Hvalues].
        rewrite Hs in Hstate, Hvalues.
        rewrite (sequential_cons_call calls k _ _ _ _ u (shared m) Hcall).
        cbn [fst snd]. split; [exact Hstate |].
        intros i t' v Hi Hv.
        destruct (Hvalues i t' v Hi Hv) as [Hin | (t0 & Hi0 & Hv0)].
        -- left. now apply elem_of_cons; right.
        -- destruct (Hold i t0 v Hi0 Hv0) as [[-> ->] | Hbefore].
           ++ left. now apply elem_of_cons; left.
           ++ now right.
      * destruct (queried_exactly_absent calls seen k m Hm Hpk) as [Hm' Hnone].
        rewrite (step_absent k m Hpk).
        rewrite (sequential_cons_none calls k _ (shared m) Hnone).
        now apply IH.
Qed.

(** Calls whose queries only read leave the state alone and each return
    what they return in that state. *)
Lemma sequential_pure_reads calls (order : list nat) (s : State) :
  Forall (fun call => forall u w, snd (query_of call.1.1.1 u w) = w) calls ->
  snd (sequential calls order s) = s /\
  forall (i : nat) (v : jlong),
    (i, v) ∈ fst (sequential calls order s) ->
    exists f env c u,
      calls !! i = Some (f, env, c, u) /\ v = fst (invoke f env c u s).
Proof.
  intros Hread. induction order as [| k rest [IHs IHv]].
  - split; [reflexivity |]. intros i v Hin. now apply not_elem_of_nil in Hin.
  - destruct (calls !! k) as [[[[f env] c] u] |] eqn:Hk.
    + rewrite (sequential_cons_call calls k rest f env c u s Hk). cbn [fst snd].
      assert (Hs : snd (invoke f env c u s) = s).
      { rewrite invoke_state.
        pose proof (proj1 (Forall_lookup _ calls) Hread k _ Hk u (os s)) as Hw.
        cbn [fst] in Hw. rewrite Hw. now destruct s. }
      rewrite Hs. split; [exact IHs |].
      intros i v Hin. apply elem_of_cons in Hin as [Heq | Hin].
      * injection Heq as -> ->. now exists f, env, c, u.
      * now apply IHv.
    + rewrite (sequential_cons_none calls k rest s Hk). split; assumption.
Qed.

End Sequential.

(** X3. Calls made at once are calls made in some order.  Under every
    schedule, the state the threads leave is the state left by making the
    calls one after the other on a single thread, each call once, in the
    order in which the threads took their first turn; and a thread that has
    returned has returned the value its call returns in that sequence. *)
Theorem concurrent_calls_linearize `{P : Platform}
    (calls : list (native * JNIEnv * jclass * Z)) (s0 : State)
    (schedule : list nat) :
  let m := run schedule {| shared := s0; pool := spawn calls |} in
  let order := first_turns [] schedule in
  NoDup order /\
  (forall i : nat, i ∈ order -> i ∈ schedule) /\
  shared m = snd (sequential calls order s0) /\
  forall (i : nat) (t : thread) (v : jlong),
    pool m !! i = Some t -> at_frame t = Returned v ->
    (i, v) ∈ fst (sequential calls order s0).
Proof.
  intros m order.
  split; [apply first_turns_NoDup |].
  split; [intros i; apply first_turns_scheduled |].
  destruct (run_is_sequential calls schedule [] _ (queried_exactly_spawn calls s0))
    as [Hstate Hvalues].
  split; [exact Hstate |].
  intros i t v Hi Hv.
  destruct (Hvalues i t v Hi) as [Hin | (t0 & Hi0 & Hv0)].
  - now rewrite Hv.
  - exact Hin.
  - exfalso. cbn [pool] in Hi0. unfold spawn in Hi0.
    rewrite list_lookup_fmap in Hi0.
    destruct (calls !! i) as [[[[f env] c] u] |]; [| discriminate].
    cbn in Hi0. injection Hi0 as <-. discriminate.
Qed.

Lemma concurrent_calls_linearize_witness :
  let calls := [(GetCounter, 1, 2, 0); (GetCounter, 3, 4, 0)] in
  let m := run (P := steady_clock) [1; 0; 0; 1; 0; 1]%nat
             {| shared := start_state steady_clock 1000; pool := spawn calls |} in
  pool m !! 0%nat = Some (mkThread GetCounter 1 2 (Returned 1003)) /\
  (0%nat, 1003) ∈ fst (sequential (P := steady_clock) calls [1; 0]%nat
                         (start_state steady_clock 1000)).
Proof.
  intros calls m. split; [reflexivity |].
  pose proof (concurrent_calls_linearize (P := steady_clock) calls
                (start_state steady_clock 1000) [1; 0; 0; 1; 0; 1]%nat)
    as (_ & _ & _ & H).
  exact (H 0%nat (mkThread GetCounter 1 2 (Returned 1003)) 1003 eq_refl eq_refl).
Defined.

(** X4. When the queries of the calls only read (as a frequency query
    does), the schedule does not matter at all: the state is left as it
    was, and every thread that has returned has returned what its call
    returns when made alone in the initial state. *)
Theorem concurrent_reads_are_alone `{P : Platform}
    (calls : list (native * JNIEnv * jclass * Z)) (s0 : State)
    (schedule : list nat) :
  Forall (fun call => forall u w, snd (query_of call.1.1.1 u w) = w) calls ->
  let m := run schedule {| shared := s0; pool := spawn calls |} in
  shared m = s0 /\
  forall (i : nat) (t : thread) (v : jlong),
    pool m !! i = Some t -> at_frame t = Returned v ->
    exists f env c u,
      calls !! i = Some (f, env, c, u) /\ v = fst (invoke f env c u s0).
Proof.
  intros Hread m.
  destruct (run_is_sequential calls schedule [] _ (queried_exactly_spawn calls s0))
    as [Hstate Hvalues].
  destruct (sequential_pure_reads calls (first_turns [] schedule) s0 Hread)
    as [Hs Hv]. cbn [shared] in Hstate, Hvalues.
  split; [now rewrite <- Hs |].
  intros i t v Hi Hret.
  destruct (Hvalues i t v Hi) as [Hin | (t0 & Hi0 & Hv0)].
  - now rewrite Hret.
  - now apply Hv.
  - exfalso. cbn [pool] in Hi0. unfold spawn in Hi0.
    rewrite list_lookup_fmap in Hi0.
    destruct (calls !! i) as [[[[f env] c] u] |]; [| discriminate].
    cbn in Hi0. injection Hi0 as <-. discriminate.
Qed.

Lemma concurrent_reads_are_alone_witness :
  let calls := [(GetFrequency, 1, 2, 5); (GetFrequency, 3, 4, 6)] in
  let m := run (P := steady_clock) [1; 0; 0; 1; 0; 1; 1]%nat
             {| shared := start_state steady_clock 1000; pool := spawn calls |} in
  shared m = start_state steady_clock 1000.
Proof.
  intros calls m.
  apply (concurrent_reads_are_alone (P := steady_clock) calls
           (start_state steady_clock 1000) [1; 0; 0; 1; 0; 1; 1]%nat).
  repeat constructor.
Defined.
